(** * Helius webhook client: a shallow embedding of [src/index.ts]

    The class [Helius] wraps six HTTP calls to the webhook endpoints of the
    Helius API.  Each method is an [async] function made of one [try]/[catch]:
    the body awaits one or two [axios] calls, the handler rethrows whatever
    was caught as a fresh [Error] whose message starts with the name of the
    operation.

    The embedding keeps that shape.  JavaScript objects are finite maps from
    property names to values, [axios] is an interface to an arbitrary,
    possibly stateful backend, and a method is a function from the state of
    the world (the backend together with the log of requests sent so far) to
    a settled promise and a new state. *)

From stdpp Require Import gmap strings list fin_maps pretty.

Local Set Warnings "-register-all".
Local Open Scope Z_scope.

(** ** JavaScript values *)

(** The values that travel in request and response bodies.  An object is the
    finite map of its own enumerable properties; an array is the list of its
    elements; a string is the sequence of its code units. *)
Inductive value :=
| VUndefined
| VNull
| VBool (b : bool)
| VNum (n : Z)
| VStr (s : string)
| VArr (elements : list value)
| VObj (fields : gmap string value).

Abbreviation obj := (gmap string value).

(** [{ ...v }]: the own enumerable properties of [v].  An object gives its
    fields, an array and a string give their elements under the decimal
    indices, every other value gives no property at all. *)
Definition indexed (l : list value) : obj :=
  list_to_map (imap (λ i v, (pretty i, v)) l).

Fixpoint code_units (s : string) : list value :=
  match s with
  | EmptyString => []
  | String c s' => VStr (String c EmptyString) :: code_units s'
  end.

Definition spread (v : value) : obj :=
  match v with
  | VObj fields => fields
  | VArr elements => indexed elements
  | VStr s => indexed (code_units s)
  | VUndefined | VNull | VBool _ | VNum _ => ∅
  end.

(** [{ ...a, ...b }]: the properties of [b] win over those of [a]. *)
Definition spread2 (a b : obj) : obj := b ∪ a.

(** [xs.length] as a JavaScript number. *)
Definition js_length {A} (xs : list A) : Z := Z.of_nat (length xs).

(** ** Thrown values and settled promises *)

(** What the handler can observe of [err.response.data]: reading [.error]
    from [null] or [undefined] raises a [TypeError]; from any other value it
    gives [undefined] when there is no such property, and otherwise the
    property, which a template literal turns into text (for a string, the
    string itself). *)
Inductive payload :=
| PNull
| PUndefined
| PNoError
| PError (text : string).

(** The values a [catch] clause can receive.  [AxiosError] stands for every
    value on which [axios.isAxiosError] answers true; its [response] is
    missing when no response arrived at all (network down, timeout).
    [JsError] is an [Error] object given by its [name] and [message];
    [JsThrown] is any other value that converts to a string, given by that
    string. *)
Inductive thrown :=
| AxiosError (message : string) (response : option payload)
| JsError (name message : string)
| JsThrown (text : string).

(** [new Error(message)] and the [TypeError]s raised by the engine. *)
Definition new_Error (message : string) : thrown := JsError "Error" message.
Definition TypeError (message : string) : thrown := JsError "TypeError" message.

(** [Error.prototype.toString]. *)
Definition Error_toString (name message : string) : string :=
  match name, message with
  | EmptyString, _ => message
  | _, EmptyString => name
  | _, _ => name +:+ ": " +:+ message
  end.

(** The state a promise settles in. *)
Inductive settled (A : Type) :=
| Fulfilled (a : A)
| Rejected (err : thrown).
Arguments Fulfilled {A} a.
Arguments Rejected {A} err.

(** ** The transport *)

Inductive method := GET | POST | PUT | DELETE.

Record request := Request {
  req_method : method;
  req_url : string;
  req_body : option obj
}.

(** [axios]: the backend answers a request from its current state, settles
    the promise with the [data] of the response or with a thrown value, and
    moves to a new state. *)
Class Axios (B : Type) := axios : request → B → settled value * B.

(** The world an operation runs in: the backend and the requests sent so
    far, oldest first. *)
Record world (B : Type) := World {
  remote : B;
  sent : list request
}.
Arguments World {B} remote sent.
Arguments remote {B} w.
Arguments sent {B} w.

(** An [async] computation: state passing with rejection. *)
Definition M (B A : Type) : Type := world B → settled A * world B.

Definition ret {B A} (a : A) : M B A := λ w, (Fulfilled a, w).

Definition throw {B A} (err : thrown) : M B A := λ w, (Rejected err, w).

Definition bind {B A C} (m : M B A) (k : A → M B C) : M B C :=
  λ w, match m w with
       | (Fulfilled a, w') => k a w'
       | (Rejected err, w') => (Rejected err, w')
       end.

Definition try_catch {B A} (m : M B A) (handler : thrown → M B A) : M B A :=
  λ w, match m w with
       | (Fulfilled a, w') => (Fulfilled a, w')
       | (Rejected err, w') => handler err w'
       end.

Notation "'let*' x ':=' m 'in' k" := (bind m (λ x, k))
  (at level 10, x name, m at level 100, k at level 200).

Notation "'try' m 'catch' h" := (try_catch m h)
  (at level 10, m at level 200, h at level 9).

(** Sending a request: the backend answers and the request is logged. *)
Definition send {B} `{!Axios B} (r : request) : M B value :=
  λ w, let '(answer, remote') := axios r (remote w) in
       (answer, World remote' (sent w ++ [r])).

Definition axios_get {B} `{!Axios B} (url : string) : M B value :=
  send (Request GET url None).
Definition axios_post {B} `{!Axios B} (url : string) (body : obj) : M B value :=
  send (Request POST url (Some body)).
Definition axios_put {B} `{!Axios B} (url : string) (body : obj) : M B value :=
  send (Request PUT url (Some body)).
Definition axios_delete {B} `{!Axios B} (url : string) : M B value :=
  send (Request DELETE url None).

(** ** The client *)

Definition API_URL_V0 : string := "https://api.helius.xyz/v0".
Definition API_URL_V1 : string := "https://api.heliuys.xyz/v1".

Record Helius := { apiKey : string }.

(** The two endpoints, as the template literals build them. *)
Definition webhooks_url (this : Helius) : string :=
  API_URL_V0 +:+ "/webhooks?api-key=" +:+ apiKey this.
Definition webhook_url (this : Helius) (webhookID : string) : string :=
  API_URL_V0 +:+ "/webhooks/" +:+ webhookID +:+ "?api-key=" +:+ apiKey this.

(** The handler shared by the six methods, up to the prefix of the message:
<<
    if (axios.isAxiosError(err)) {
        throw new Error(`<prefix>${err.response?.data.error}`)
    } else {
        throw new Error(`<prefix>${err}`)
    }
>>
    With no response the optional chain gives [undefined]; with a response
    whose data is [null] or [undefined] the property read itself throws,
    inside the handler, and that [TypeError] is what leaves the method. *)
Definition rethrow {B A} (prefix : string) (err : thrown) : M B A :=
  match err with
  | AxiosError _ None => throw (new_Error (prefix +:+ "undefined"))
  | AxiosError _ (Some PNull) =>
      throw (TypeError "Cannot read properties of null (reading 'error')")
  | AxiosError _ (Some PUndefined) =>
      throw (TypeError "Cannot read properties of undefined (reading 'error')")
  | AxiosError _ (Some PNoError) => throw (new_Error (prefix +:+ "undefined"))
  | AxiosError _ (Some (PError text)) => throw (new_Error (prefix +:+ text))
  | JsError name message =>
      throw (new_Error (prefix +:+ Error_toString name message))
  | JsThrown text => throw (new_Error (prefix +:+ text))
  end.

Definition capacity_message : string :=
  "a single webhook cannot contain more than 10,000 addresses".

Section Client.
Context {B : Type} `{!Axios B}.

Definition getAllWebhooks (this : Helius) : M B value :=
  try (let* data := axios_get (webhooks_url this) in
       ret data)
  catch (rethrow "error calling getWebhooks: ").

Definition getWebhookByID (this : Helius) (webhookID : string) : M B value :=
  try (let* data := axios_get (webhook_url this webhookID) in
       ret data)
  catch (rethrow "error during getWebhookByID: ").

Definition createWebhook (this : Helius) (createWebhookRequest : obj)
  : M B value :=
  try (let* data := axios_post (webhooks_url this)
                                (spread (VObj createWebhookRequest)) in
       ret data)
  catch (rethrow "error during createWebhook: ").

Definition deleteWebhook (this : Helius) (webhookID : string) : M B bool :=
  try (let* _ := axios_delete (webhook_url this webhookID) in
       ret true)
  catch (rethrow "error during deleteWebhook: ").

Definition editWebhook (this : Helius) (webhookID : string)
    (editWebhookRequest : obj) : M B value :=
  try (let* webhook := getWebhookByID this webhookID in
       let* data := axios_put (webhook_url this webhookID)
                       (spread2 (spread webhook)
                                (spread (VObj editWebhookRequest))) in
       ret data)
  catch (rethrow "error during editWebhook: ").

(** The three statements between the fetch and the write:
<<
    const accountAddresses = webhook.accountAddresses.concat(newAccountAddresses)
    webhook.accountAddresses = accountAddresses;
    if (accountAddresses.length > 10000) { throw new Error(...) }
>>
    They give the webhook as it is to be written.  Reading the property
    from [null] or [undefined] throws; a value that is not an object has
    no such property, and [concat] is then called on [undefined].  An
    array is concatenated with the new addresses, element by element;
    a string has a [concat] of its own, which appends the new addresses
    joined by commas. *)
Definition extend_addresses (webhook : value)
    (newAccountAddresses : list string) : M B obj :=
  match webhook with
  | VUndefined =>
      throw (TypeError
        "Cannot read properties of undefined (reading 'accountAddresses')")
  | VNull =>
      throw (TypeError
        "Cannot read properties of null (reading 'accountAddresses')")
  | VBool _ | VNum _ | VStr _ | VArr _ =>
      throw (TypeError
        "Cannot read properties of undefined (reading 'concat')")
  | VObj fields =>
      match default VUndefined (fields !! "accountAddresses") with
      | VUndefined =>
          throw (TypeError
            "Cannot read properties of undefined (reading 'concat')")
      | VNull =>
          throw (TypeError
            "Cannot read properties of null (reading 'concat')")
      | VBool _ | VNum _ | VObj _ =>
          throw (TypeError
            "webhook.accountAddresses.concat is not a function")
      | VArr existing =>
          let accountAddresses := existing ++ (VStr <$> newAccountAddresses) in
          let webhook := <["accountAddresses" := VArr accountAddresses]> fields in
          if 10000 <? js_length accountAddresses
          then throw (new_Error capacity_message)
          else ret webhook
      | VStr existing =>
          let accountAddresses :=
            existing +:+ String.concat "," newAccountAddresses in
          let webhook := <["accountAddresses" := VStr accountAddresses]> fields in
          if 10000 <? Z.of_nat (String.length accountAddresses)
          then throw (new_Error capacity_message)
          else ret webhook
      end
  end.

Definition appendAddressesToWebhook (this : Helius) (webhookID : string)
    (newAccountAddresses : list string) : M B value :=
  try (let* webhook := getWebhookByID this webhookID in
       let* webhook := extend_addresses webhook newAccountAddresses in
       let* data := axios_put (webhook_url this webhookID)
                               (spread (VObj webhook)) in
       ret data)
  catch (rethrow "error during appendAddressesToWebhook: ").

End Client.

(** ** Reading the log *)

(** A write is any request that is not a read. *)
Definition is_write (r : request) : bool :=
  match req_method r with
  | GET => false
  | POST | PUT | DELETE => true
  end.

Definition writes (l : list request) : list request := filter is_write l.

(** [issued w w' l]: between [w] and [w'] exactly the requests [l] were
    sent, in that order. *)
Definition issued {B} (w w' : world B) (l : list request) : Prop :=
  sent w' = sent w ++ l.

(** From [issued w w' l], with [w'] known, to the value of [l]. *)
Ltac read_issued H :=
  unfold issued in H; simpl in H; apply app_inv_head in H; subst.

Definition fetch (this : Helius) (webhookID : string) : request :=
  Request GET (webhook_url this webhookID) None.

Definition write (this : Helius) (webhookID : string) (body : obj) : request :=
  Request PUT (webhook_url this webhookID) (Some body).

(** ** Reading messages *)

(** [contains s sub]: [sub] occurs in [s]. *)
Definition contains (s sub : string) : Prop :=
  ∃ pre post, s = pre +:+ sub +:+ post.

Fixpoint starts_with (sub s : string) : bool :=
  match sub, s with
  | EmptyString, _ => true
  | String a sub', String b s' => bool_decide (a = b) && starts_with sub' s'
  | String _ _, EmptyString => false
  end.

Fixpoint containsb (s sub : string) : bool :=
  starts_with sub s ||
  match s with
  | EmptyString => false
  | String _ s' => containsb s' sub
  end.

(** What [rethrow] throws, as a function of what was caught. *)
Definition rethrown (prefix : string) (err : thrown) : thrown :=
  match err with
  | AxiosError _ None | AxiosError _ (Some PNoError) =>
      new_Error (prefix +:+ "undefined")
  | AxiosError _ (Some PNull) =>
      TypeError "Cannot read properties of null (reading 'error')"
  | AxiosError _ (Some PUndefined) =>
      TypeError "Cannot read properties of undefined (reading 'error')"
  | AxiosError _ (Some (PError text)) => new_Error (prefix +:+ text)
  | JsError name message => new_Error (prefix +:+ Error_toString name message)
  | JsThrown text => new_Error (prefix +:+ text)
  end.

(** How a method settles when its single awaited call settles with
    [answer]: a value passes through, a rejection goes through the handler. *)
Definition settle {A} (prefix : string) (answer : settled A) : settled A :=
  match answer with
  | Fulfilled a => Fulfilled a
  | Rejected err => Rejected (rethrown prefix err)
  end.

(** The error that reaches the caller when the capacity check fails. *)
Definition capacity_error : thrown :=
  new_Error ("error during appendAddressesToWebhook: Error: " +:+ capacity_message).

(** ** The six operations as one family *)

Inductive call :=
| GetAllWebhooks
| GetWebhookByID (webhookID : string)
| CreateWebhook (createWebhookRequest : obj)
| DeleteWebhook (webhookID : string)
| EditWebhook (webhookID : string) (editWebhookRequest : obj)
| AppendAddressesToWebhook (webhookID : string) (newAccountAddresses : list string).

(** The name each operation puts in its messages. *)
Definition operation_name (c : call) : string :=
  match c with
  | GetAllWebhooks => "getWebhooks"
  | GetWebhookByID _ => "getWebhookByID"
  | CreateWebhook _ => "createWebhook"
  | DeleteWebhook _ => "deleteWebhook"
  | EditWebhook _ _ => "editWebhook"
  | AppendAddressesToWebhook _ _ => "appendAddressesToWebhook"
  end.

(** The prefix each handler puts before the cause. *)
Definition prefix_of (c : call) : string :=
  match c with
  | GetAllWebhooks => "error calling getWebhooks: "
  | GetWebhookByID _ => "error during getWebhookByID: "
  | CreateWebhook _ => "error during createWebhook: "
  | DeleteWebhook _ => "error during deleteWebhook: "
  | EditWebhook _ _ => "error during editWebhook: "
  | AppendAddressesToWebhook _ _ => "error during appendAddressesToWebhook: "
  end.

Definition rejection {A} (s : settled A) : option thrown :=
  match s with
  | Fulfilled _ => None
  | Rejected err => Some err
  end.

(** [answers_with this c w err]: run from [w], the operation [c] reaches a
    call to the backend that is rejected with [err].  The two-step
    operations can be rejected at the fetch or, once the fetch has resolved
    (and, for the append, the addresses were extended within the cap), at
    the write. *)
Definition answers_with {B} `{!Axios B} (this : Helius) (c : call)
    (w : world B) (err : thrown) : Prop :=
  let rejects r b := ∃ b', axios r b = (Rejected err, b') in
  match c with
  | GetAllWebhooks => rejects (Request GET (webhooks_url this) None) (remote w)
  | GetWebhookByID webhookID => rejects (fetch this webhookID) (remote w)
  | CreateWebhook request =>
      rejects (Request POST (webhooks_url this) (Some request)) (remote w)
  | DeleteWebhook webhookID =>
      rejects (Request DELETE (webhook_url this webhookID) None) (remote w)
  | EditWebhook webhookID request =>
      rejects (fetch this webhookID) (remote w) ∨
      ∃ webhook b1,
        axios (fetch this webhookID) (remote w) = (Fulfilled webhook, b1) ∧
        rejects (write this webhookID (spread2 (spread webhook) request)) b1
  | AppendAddressesToWebhook webhookID new =>
      rejects (fetch this webhookID) (remote w) ∨
      ∃ webhook b1 body,
        axios (fetch this webhookID) (remote w) = (Fulfilled webhook, b1) ∧
        (extend_addresses webhook new (World b1 [])).1 = Fulfilled body ∧
        rejects (write this webhookID body) b1
  end.

(** How the operation [c] is rejected when run from [w], if it is. *)
Definition failure {B} `{!Axios B} (this : Helius) (c : call) (w : world B)
  : option thrown :=
  match c with
  | GetAllWebhooks => rejection (getAllWebhooks this w).1
  | GetWebhookByID webhookID => rejection (getWebhookByID this webhookID w).1
  | CreateWebhook request => rejection (createWebhook this request w).1
  | DeleteWebhook webhookID => rejection (deleteWebhook this webhookID w).1
  | EditWebhook webhookID request =>
      rejection (editWebhook this webhookID request w).1
  | AppendAddressesToWebhook webhookID new =>
      rejection (appendAddressesToWebhook this webhookID new w).1
  end.

(** ** Whole runs *)

Definition fulfilment {A} (s : settled A) : option A :=
  match s with
  | Fulfilled a => Some a
  | Rejected _ => None
  end.

(** The world the operation [c] leaves when run from [w]. *)
Definition after {B} `{!Axios B} (this : Helius) (c : call) (w : world B)
  : world B :=
  match c with
  | GetAllWebhooks => (getAllWebhooks this w).2
  | GetWebhookByID webhookID => (getWebhookByID this webhookID w).2
  | CreateWebhook request => (createWebhook this request w).2
  | DeleteWebhook webhookID => (deleteWebhook this webhookID w).2
  | EditWebhook webhookID request => (editWebhook this webhookID request w).2
  | AppendAddressesToWebhook webhookID new =>
      (appendAddressesToWebhook this webhookID new w).2
  end.

(** What the operation [c] resolves to when run from [w], if it does; the
    boolean of [deleteWebhook] is given as a value. *)
Definition resolved {B} `{!Axios B} (this : Helius) (c : call) (w : world B)
  : option value :=
  match c with
  | GetAllWebhooks => fulfilment (getAllWebhooks this w).1
  | GetWebhookByID webhookID => fulfilment (getWebhookByID this webhookID w).1
  | CreateWebhook request => fulfilment (createWebhook this request w).1
  | DeleteWebhook webhookID =>
      VBool <$> fulfilment (deleteWebhook this webhookID w).1
  | EditWebhook webhookID request =>
      fulfilment (editWebhook this webhookID request w).1
  | AppendAddressesToWebhook webhookID new =>
      fulfilment (appendAddressesToWebhook this webhookID new w).1
  end.

(** The request each operation starts with. *)
Definition first_request (this : Helius) (c : call) : request :=
  match c with
  | GetAllWebhooks => Request GET (webhooks_url this) None
  | CreateWebhook request => Request POST (webhooks_url this) (Some request)
  | DeleteWebhook webhookID => Request DELETE (webhook_url this webhookID) None
  | GetWebhookByID webhookID
  | EditWebhook webhookID _
  | AppendAddressesToWebhook webhookID _ => fetch this webhookID
  end.

(** The operations made of one call whose data is returned as it is. *)
Definition passes_through (c : call) : bool :=
  match c with
  | GetAllWebhooks | GetWebhookByID _ | CreateWebhook _ => true
  | DeleteWebhook _ | EditWebhook _ _ | AppendAddressesToWebhook _ _ => false
  end.

(** [keyed this r]: the request goes to the v0 API and ends with the key of
    the client as its query. *)
Definition keyed (this : Helius) (r : request) : Prop :=
  ∃ path, req_url r = API_URL_V0 +:+ path +:+ "?api-key=" +:+ apiKey this.

(** ** Test backends *)

(** A server holding one webhook: a read returns it, a write replaces it by
    the body and returns the new webhook. *)
Definition one_webhook : Axios value :=
  λ r stored,
    match req_method r, req_body r with
    | (POST | PUT), Some body => (Fulfilled (VObj body), VObj body)
    | DELETE, _ => (Fulfilled (VStr ""), VUndefined)
    | _, _ => (Fulfilled stored, stored)
    end.

(** A backend on which every call is rejected with the same value. *)
Definition always_rejects (err : thrown) : Axios unit :=
  λ _ u, (Rejected err, u).

(** A server holding one webhook that accepts reads and rejects every write
    with the same value. *)
Definition read_only (err : thrown) : Axios value :=
  λ r stored,
    match req_method r with
    | GET => (Fulfilled stored, stored)
    | POST | PUT | DELETE => (Rejected err, stored)
    end.

Definition helius : Helius := {| apiKey := "key" |}.

(** The world of a backend without state, before anything is sent. *)
Definition offline : world unit := World tt [].

Definition webhook_with (addresses : list value) : obj :=
  <["webhookID" := VStr "abc"]>
    (<["webhookURL" := VStr "https://example.org/hook"]>
      (<["accountAddresses" := VArr addresses]> ∅)).

(** [n] addresses already on the webhook, and [n] addresses to append. *)
Definition addresses (n : Z) : list value :=
  replicate (Z.to_nat n) (VStr "old").

Definition new_addresses (n : Z) : list string :=
  replicate (Z.to_nat n) "addr".

(** The world in which the server holds a webhook with [n] addresses and
    nothing has been sent yet. *)
Definition holding (n : Z) : world value :=
  World (VObj (webhook_with (addresses n))) [].

(** * Properties *)

(** ** Strings *)

Local Arguments String.append : simpl nomatch.

Lemma app_assoc_string (a b c : string) : (a +:+ b) +:+ c = a +:+ b +:+ c.
Proof. induction a as [|x a IH]; simpl; [done | by rewrite IH]. Qed.

Lemma app_empty_r (a : string) : a +:+ "" = a.
Proof. induction a as [|x a IH]; simpl; [done | by rewrite IH]. Qed.

Lemma contains_refl (s : string) : contains s s.
Proof. exists "", "". simpl. by rewrite app_empty_r. Qed.

Lemma contains_app_r (p s sub : string) : contains s sub → contains (p +:+ s) sub.
Proof.
  intros (pre & post & ->). exists (p +:+ pre), post.
  by rewrite app_assoc_string.
Qed.

Lemma contains_app_l (s q sub : string) : contains s sub → contains (s +:+ q) sub.
Proof.
  intros (pre & post & ->). exists pre, (post +:+ q).
  by rewrite !app_assoc_string.
Qed.

Lemma starts_with_spec (sub s : string) :
  starts_with sub s = true ↔ ∃ post, s = sub +:+ post.
Proof.
  revert s. induction sub as [|a sub IH]; intros s; simpl.
  - split; [intros _; by exists s | done].
  - destruct s as [|b s].
    + split; [done | intros [post Hp]; discriminate].
    + rewrite andb_true_iff, bool_decide_eq_true, IH. split.
      * intros [-> [post ->]]. by exists post.
      * intros [post Hp]. injection Hp as -> ->. split; [done | by exists post].
Qed.

Lemma containsb_spec (s sub : string) :
  containsb s sub = true ↔ contains s sub.
Proof.
  induction s as [|c s IH]; simpl.
  - rewrite orb_false_r, starts_with_spec. split.
    + intros [post Hp]. exists "", post. done.
    + intros (pre & post & Hp). destruct pre; [by exists post | discriminate].
  - rewrite orb_true_iff, starts_with_spec, IH. split.
    + intros [[post Hp] | (pre & post & ->)].
      * exists "", post. done.
      * exists (String c pre), post. done.
    + intros (pre & post & Hp). destruct pre as [|x pre].
      * left. by exists post.
      * right. injection Hp as -> ->. by exists pre, post.
Qed.

Lemma not_contains (s sub : string) : containsb s sub = false → ¬ contains s sub.
Proof. intros Hb Hc. apply containsb_spec in Hc. congruence. Qed.

(** ** Running the methods *)

Lemma js_length_app {A} (xs ys : list A) :
  js_length (xs ++ ys) = js_length xs + js_length ys.
Proof. unfold js_length. rewrite length_app. lia. Qed.

Lemma js_length_fmap {A C} (f : A → C) (xs : list A) :
  js_length (f <$> xs) = js_length xs.
Proof. unfold js_length. by rewrite length_fmap. Qed.

Section Runs.
Context {B : Type} `{!Axios B} (this : Helius).

Lemma rethrow_run {A} (prefix : string) (err : thrown) (w : world B) :
  rethrow (A:=A) prefix err w = (Rejected (rethrown prefix err), w).
Proof. by destruct err as [m [[| | |text]|]| |]. Qed.

(** A method made of one call inside the [try]. *)
Lemma single_call_run {A} (prefix : string) (r : request) (k : value → A)
    (w : world B) :
  (try (let* data := send r in ret (k data)) catch (rethrow prefix)) w =
  (settle prefix (match (axios r (remote w)).1 with
                  | Fulfilled d => Fulfilled (k d)
                  | Rejected err => Rejected err
                  end),
   World (axios r (remote w)).2 (sent w ++ [r])).
Proof.
  unfold try_catch, bind, send, ret.
  destruct (axios r (remote w)) as [[d|err] b']; simpl; [done |].
  by rewrite rethrow_run.
Qed.

Lemma getWebhookByID_run (webhookID : string) (w : world B) :
  getWebhookByID this webhookID w =
  (settle "error during getWebhookByID: "
     (axios (fetch this webhookID) (remote w)).1,
   World (axios (fetch this webhookID) (remote w)).2
         (sent w ++ [fetch this webhookID])).
Proof.
  unfold getWebhookByID, axios_get. rewrite (single_call_run _ _ id).
  by destruct (axios _ _).1.
Qed.

Lemma getWebhookByID_fulfilled (webhookID : string) (w : world B)
    (d : value) (b1 : B) :
  axios (fetch this webhookID) (remote w) = (Fulfilled d, b1) →
  getWebhookByID this webhookID w =
  (Fulfilled d, World b1 (sent w ++ [fetch this webhookID])).
Proof. intros Hf. by rewrite getWebhookByID_run, Hf. Qed.

Lemma getWebhookByID_rejected (webhookID : string) (w : world B)
    (err : thrown) (b1 : B) :
  axios (fetch this webhookID) (remote w) = (Rejected err, b1) →
  getWebhookByID this webhookID w =
  (Rejected (rethrown "error during getWebhookByID: " err),
   World b1 (sent w ++ [fetch this webhookID])).
Proof. intros Hf. by rewrite getWebhookByID_run, Hf. Qed.

(** The append, when the fetched webhook carries an array of addresses
    and the concatenation fits. *)
Lemma append_run_within (webhookID : string) (N : list string) (W : obj)
    (E : list value) (w : world B) (b1 : B) :
  axios (fetch this webhookID) (remote w) = (Fulfilled (VObj W), b1) →
  W !! "accountAddresses" = Some (VArr E) →
  js_length E + js_length N ≤ 10000 →
  let body := <["accountAddresses" := VArr (E ++ (VStr <$> N))]> W in
  appendAddressesToWebhook this webhookID N w =
  (settle "error during appendAddressesToWebhook: "
     (axios (write this webhookID body) b1).1,
   World (axios (write this webhookID body) b1).2
         (sent w ++ [fetch this webhookID; write this webhookID body])).
Proof.
  intros Hf HW Hlen body.
  unfold appendAddressesToWebhook, try_catch, bind.
  rewrite (getWebhookByID_fulfilled _ _ _ _ Hf).
  unfold extend_addresses. rewrite HW. simpl.
  rewrite js_length_app, js_length_fmap.
  destruct (Z.ltb_spec 10000 (js_length E + js_length N)) as [Hgt|_]; [lia |].
  unfold ret, axios_put, send. simpl. fold body. unfold write.
  destruct (axios _ b1) as [[d|err] b2]; simpl.
  - by rewrite <- app_assoc.
  - by rewrite rethrow_run, <- app_assoc.
Qed.

(** The append, when the concatenation exceeds the cap. *)
Lemma append_run_over (webhookID : string) (N : list string) (W : obj)
    (E : list value) (w : world B) (b1 : B) :
  axios (fetch this webhookID) (remote w) = (Fulfilled (VObj W), b1) →
  W !! "accountAddresses" = Some (VArr E) →
  10000 < js_length E + js_length N →
  appendAddressesToWebhook this webhookID N w =
  (Rejected capacity_error, World b1 (sent w ++ [fetch this webhookID])).
Proof.
  intros Hf HW Hlen.
  unfold appendAddressesToWebhook, try_catch, bind.
  rewrite (getWebhookByID_fulfilled _ _ _ _ Hf).
  unfold extend_addresses. rewrite HW. simpl.
  rewrite js_length_app, js_length_fmap.
  destruct (Z.ltb_spec 10000 (js_length E + js_length N)) as [_|Hle]; [|lia].
  done.
Qed.

End Runs.

Section TwoSteps.
Context {B : Type} `{!Axios B} (this : Helius).

(** The statements between the fetch and the write touch no state. *)
Lemma extend_addresses_pure (webhook : value) (N : list string)
    (w w0 : world B) :
  extend_addresses webhook N w = ((extend_addresses webhook N w0).1, w).
Proof.
  destruct webhook as [| | | | | |fields]; simpl; try done.
  destruct (default VUndefined (fields !! "accountAddresses")); try done;
    by case_match.
Qed.

Lemma two_steps_fetch_rejected {A} (prefix : string) (webhookID : string)
    (k : value → M B A) (w : world B) (err : thrown) (b1 : B) :
  axios (fetch this webhookID) (remote w) = (Rejected err, b1) →
  (try (let* webhook := getWebhookByID this webhookID in k webhook)
   catch (rethrow prefix)) w =
  (Rejected (rethrown prefix (rethrown "error during getWebhookByID: " err)),
   World b1 (sent w ++ [fetch this webhookID])).
Proof.
  intros Hf. unfold try_catch, bind.
  rewrite (getWebhookByID_rejected _ _ _ _ _ Hf).
  by rewrite rethrow_run.
Qed.

Lemma editWebhook_run (webhookID : string) (request : obj) (w : world B)
    (webhook : value) (b1 : B) :
  axios (fetch this webhookID) (remote w) = (Fulfilled webhook, b1) →
  let body := spread2 (spread webhook) request in
  editWebhook this webhookID request w =
  (settle "error during editWebhook: "
     (axios (write this webhookID body) b1).1,
   World (axios (write this webhookID body) b1).2
         (sent w ++ [fetch this webhookID; write this webhookID body])).
Proof.
  intros Hf body.
  unfold editWebhook, try_catch, bind.
  rewrite (getWebhookByID_fulfilled _ _ _ _ _ Hf).
  unfold ret, axios_put, send. simpl. fold body. unfold write.
  destruct (axios _ b1) as [[d|err] b2]; simpl.
  - by rewrite <- app_assoc.
  - by rewrite rethrow_run, <- app_assoc.
Qed.

Lemma append_run_write (webhookID : string) (N : list string) (w : world B)
    (webhook : value) (b1 : B) (body : obj) :
  axios (fetch this webhookID) (remote w) = (Fulfilled webhook, b1) →
  (extend_addresses webhook N (World b1 [])).1 = Fulfilled body →
  appendAddressesToWebhook this webhookID N w =
  (settle "error during appendAddressesToWebhook: "
     (axios (write this webhookID body) b1).1,
   World (axios (write this webhookID body) b1).2
         (sent w ++ [fetch this webhookID; write this webhookID body])).
Proof.
  intros Hf Hext.
  unfold appendAddressesToWebhook, try_catch, bind.
  rewrite (getWebhookByID_fulfilled _ _ _ _ _ Hf).
  rewrite (extend_addresses_pure _ _ _ (World b1 [])), Hext.
  unfold axios_put, send, ret. simpl. unfold write.
  destruct (axios _ b1) as [[d|err] b2]; simpl.
  - by rewrite <- app_assoc.
  - by rewrite rethrow_run, <- app_assoc.
Qed.

End TwoSteps.

(** ** Appending addresses *)


(** A duplicate stays: appending ["old"] to a webhook that already watches
    ["old"] writes it twice. *)
Example append_keeps_duplicates :
  (@appendAddressesToWebhook value one_webhook helius "abc" ["old"; "new"]
     (holding 1)).2 =
  World (VObj (webhook_with [VStr "old"; VStr "old"; VStr "new"]))
        [fetch helius "abc";
         write helius "abc" (webhook_with [VStr "old"; VStr "old"; VStr "new"])].
Proof. vm_compute. reflexivity. Qed.

(** C1.  When the fetch resolves to a webhook whose address list is [E] and
    [len(E) + len(N) <= 10000] (10,000 itself included), the append issues
    exactly one write; the address list of its body is [E] followed by [N],
    in order and without deduplication: an address present in both lists is
    present at both of its positions. *)
Theorem append_writes_concatenation {B} `{!Axios B} (this : Helius)
    (webhookID : string) (N : list string) (W : obj) (E : list value)
    (w : world B) (b1 : B) :
  axios (fetch this webhookID) (remote w) = (Fulfilled (VObj W), b1) →
  W !! "accountAddresses" = Some (VArr E) →
  js_length E + js_length N ≤ 10000 →
  ∃ body,
    (∀ l, issued w (appendAddressesToWebhook this webhookID N w).2 l →
          writes l = [write this webhookID body]) ∧
    body !! "accountAddresses" = Some (VArr (E ++ (VStr <$> N))) ∧
    ∀ a i j, E !! i = Some (VStr a) → N !! j = Some a →
      (E ++ (VStr <$> N)) !! i = Some (VStr a) ∧
      (E ++ (VStr <$> N)) !! (length E + j)%nat = Some (VStr a).
Proof.
  intros Hf HW Hlen.
  exists (<["accountAddresses" := VArr (E ++ (VStr <$> N))]> W).
  split; [|split].
  - intros l Hl. rewrite (append_run_within this _ _ _ _ _ _ Hf HW Hlen) in Hl.
    by read_issued Hl.
  - apply lookup_insert_eq.
  - intros a i j Hi Hj. split.
    + by apply lookup_app_l_Some.
    + rewrite lookup_app_r by lia.
      replace (length E + j - length E)%nat with j by lia.
      by rewrite list_lookup_fmap, Hj.
Qed.

Lemma append_writes_concatenation_witness :
  ∃ body,
    (∀ l, issued (holding 9950)
            (@appendAddressesToWebhook value one_webhook helius "abc"
               (new_addresses 50) (holding 9950)).2 l →
          writes l = [write helius "abc" body]) ∧
    body !! "accountAddresses" =
      Some (VArr (addresses 9950 ++ (VStr <$> new_addresses 50))) ∧
    ∀ a i j, addresses 9950 !! i = Some (VStr a) →
      new_addresses 50 !! j = Some a →
      (addresses 9950 ++ (VStr <$> new_addresses 50)) !! i = Some (VStr a) ∧
      (addresses 9950 ++ (VStr <$> new_addresses 50))
        !! (length (addresses 9950) + j)%nat = Some (VStr a).
Proof.
  apply (@append_writes_concatenation value one_webhook helius "abc"
           (new_addresses 50) (webhook_with (addresses 9950)) (addresses 9950)
           (holding 9950) (VObj (webhook_with (addresses 9950)))).
  - reflexivity.
  - vm_compute. reflexivity.
  - vm_compute. discriminate.
Defined.

(** C2.  When the fetch resolves to a webhook whose address list is [E] and
    [len(E) + len(N) > 10000], the append issues no write, leaves the
    remote as the fetch left it, and is rejected with an error whose
    message carries the capacity message. *)
Theorem append_over_capacity_no_write {B} `{!Axios B} (this : Helius)
    (webhookID : string) (N : list string) (W : obj) (E : list value)
    (w : world B) (b1 : B) :
  axios (fetch this webhookID) (remote w) = (Fulfilled (VObj W), b1) →
  W !! "accountAddresses" = Some (VArr E) →
  10000 < js_length E + js_length N →
  let r := appendAddressesToWebhook this webhookID N w in
  (∀ l, issued w r.2 l → writes l = []) ∧
  remote r.2 = b1 ∧
  ∃ message, r.1 = Rejected (new_Error message) ∧
             contains message capacity_message.
Proof.
  intros Hf HW Hlen r. subst r.
  rewrite (append_run_over this _ _ _ _ _ _ Hf HW Hlen). simpl.
  split; [|split; [done|]].
  - intros l Hl. by read_issued Hl.
  - eexists. split; [reflexivity |].
    apply contains_app_r, contains_refl.
Qed.

Lemma append_over_capacity_no_write_witness :
  let r := @appendAddressesToWebhook value one_webhook helius "abc"
             (new_addresses 50) (holding 9960) in
  (∀ l, issued (holding 9960) r.2 l → writes l = []) ∧
  remote r.2 = VObj (webhook_with (addresses 9960)) ∧
  ∃ message, r.1 = Rejected (new_Error message) ∧
             contains message capacity_message.
Proof.
  apply (@append_over_capacity_no_write value one_webhook helius "abc"
           (new_addresses 50) (webhook_with (addresses 9960)) (addresses 9960)
           (holding 9960) (VObj (webhook_with (addresses 9960)))).
  - reflexivity.
  - vm_compute. reflexivity.
  - vm_compute. reflexivity.
Defined.

(** C6, as stated, fails: the capacity check needs the length of the
    existing list, so the fetch has been sent by the time it fails.  Here
    the server holds 10,000 addresses and one more is appended. *)
Lemma capacity_failure_follows_a_fetch :
  let r := @appendAddressesToWebhook value one_webhook helius "abc"
             ["addr"] (holding 10000) in
  r.1 = Rejected capacity_error ∧ ¬ issued (holding 10000) r.2 [].
Proof.
  intros r. subst r.
  rewrite (@append_run_over value one_webhook helius "abc" ["addr"]
             (webhook_with (addresses 10000)) (addresses 10000)
             (holding 10000) (VObj (webhook_with (addresses 10000))));
    [| reflexivity | by vm_compute | by vm_compute].
  split; [done |]. intros Hl. unfold issued in Hl. simpl in Hl. discriminate.
Qed.

(** C6, amended.  When the append fails on the capacity cap, the only
    network call the operation has made is the read that fetches the
    webhook; no write is attempted. *)
Theorem capacity_failure_only_fetches {B} `{!Axios B} (this : Helius)
    (webhookID : string) (N : list string) (W : obj) (E : list value)
    (w : world B) (b1 : B) :
  axios (fetch this webhookID) (remote w) = (Fulfilled (VObj W), b1) →
  W !! "accountAddresses" = Some (VArr E) →
  10000 < js_length E + js_length N →
  let r := appendAddressesToWebhook this webhookID N w in
  r.1 = Rejected capacity_error ∧
  issued w r.2 [fetch this webhookID] ∧
  req_method (fetch this webhookID) = GET.
Proof.
  intros Hf HW Hlen r. subst r.
  by rewrite (append_run_over this _ _ _ _ _ _ Hf HW Hlen).
Qed.

Lemma capacity_failure_only_fetches_witness :
  let r := @appendAddressesToWebhook value one_webhook helius "abc"
             ["addr"] (holding 10000) in
  r.1 = Rejected capacity_error ∧
  issued (holding 10000) r.2 [fetch helius "abc"] ∧
  req_method (fetch helius "abc") = GET.
Proof.
  apply (@capacity_failure_only_fetches value one_webhook helius "abc"
           ["addr"] (webhook_with (addresses 10000)) (addresses 10000)
           (holding 10000) (VObj (webhook_with (addresses 10000)))).
  - reflexivity.
  - vm_compute. reflexivity.
  - vm_compute. reflexivity.
Defined.

(** C8.  Within the cap, the body the append writes is the fetched webhook
    with the address list replaced: every other field is the fetched one. *)
Theorem append_body_keeps_other_fields {B} `{!Axios B} (this : Helius)
    (webhookID : string) (N : list string) (W : obj) (E : list value)
    (w : world B) (b1 : B) :
  axios (fetch this webhookID) (remote w) = (Fulfilled (VObj W), b1) →
  W !! "accountAddresses" = Some (VArr E) →
  js_length E + js_length N ≤ 10000 →
  ∃ body,
    issued w (appendAddressesToWebhook this webhookID N w).2
      [fetch this webhookID; write this webhookID body] ∧
    body = <["accountAddresses" := VArr (E ++ (VStr <$> N))]> W ∧
    ∀ field, field ≠ "accountAddresses" → body !! field = W !! field.
Proof.
  intros Hf HW Hlen. eexists. split; [|split; [reflexivity |]].
  - by rewrite (append_run_within this _ _ _ _ _ _ Hf HW Hlen).
  - intros field Hne. by rewrite lookup_insert_ne.
Qed.

Lemma append_body_keeps_other_fields_witness :
  ∃ body,
    issued (holding 3)
      (@appendAddressesToWebhook value one_webhook helius "abc"
         ["addr"] (holding 3)).2
      [fetch helius "abc"; write helius "abc" body] ∧
    body = <["accountAddresses" := VArr (addresses 3 ++ (VStr <$> ["addr"]))]>
             (webhook_with (addresses 3)) ∧
    ∀ field, field ≠ "accountAddresses" →
             body !! field = webhook_with (addresses 3) !! field.
Proof.
  apply (@append_body_keeps_other_fields value one_webhook helius "abc"
           ["addr"] (webhook_with (addresses 3)) (addresses 3)
           (holding 3) (VObj (webhook_with (addresses 3)))).
  - reflexivity.
  - vm_compute. reflexivity.
  - vm_compute. discriminate.
Defined.

(** C9.  On the capacity cap the error that reaches the caller has been
    through the handler of the operation: its message names
    [appendAddressesToWebhook], carries the capacity text, and is not the
    bare capacity text. *)
Theorem capacity_error_is_rewrapped {B} `{!Axios B} (this : Helius)
    (webhookID : string) (N : list string) (W : obj) (E : list value)
    (w : world B) (b1 : B) :
  axios (fetch this webhookID) (remote w) = (Fulfilled (VObj W), b1) →
  W !! "accountAddresses" = Some (VArr E) →
  10000 < js_length E + js_length N →
  ∃ message,
    (appendAddressesToWebhook this webhookID N w).1 =
      Rejected (new_Error message) ∧
    contains message "appendAddressesToWebhook" ∧
    contains message capacity_message ∧
    message ≠ capacity_message.
Proof.
  intros Hf HW Hlen.
  rewrite (append_run_over this _ _ _ _ _ _ Hf HW Hlen). simpl.
  eexists. split; [reflexivity |]. split; [|split].
  - by exists "error during ", (": Error: " +:+ capacity_message).
  - apply contains_app_r, contains_refl.
  - done.
Qed.

Lemma capacity_error_is_rewrapped_witness :
  ∃ message,
    (@appendAddressesToWebhook value one_webhook helius "abc"
       (new_addresses 50) (holding 9960)).1 = Rejected (new_Error message) ∧
    contains message "appendAddressesToWebhook" ∧
    contains message capacity_message ∧
    message ≠ capacity_message.
Proof.
  apply (@capacity_error_is_rewrapped value one_webhook helius "abc"
           (new_addresses 50) (webhook_with (addresses 9960)) (addresses 9960)
           (holding 9960) (VObj (webhook_with (addresses 9960)))).
  - reflexivity.
  - vm_compute. reflexivity.
  - vm_compute. reflexivity.
Defined.

(** C10.  Appending the empty list to a webhook within the cap is not a
    shortcut: the write is sent all the same, its body is the fetched
    webhook with its address list as it was, and the operation resolves to
    what the server answers to that write. *)
Theorem append_nothing_still_writes {B} `{!Axios B} (this : Helius)
    (webhookID : string) (W : obj) (E : list value) (w : world B) (b1 : B) :
  axios (fetch this webhookID) (remote w) = (Fulfilled (VObj W), b1) →
  W !! "accountAddresses" = Some (VArr E) →
  js_length E ≤ 10000 →
  let r := appendAddressesToWebhook this webhookID [] w in
  issued w r.2 [fetch this webhookID; write this webhookID W] ∧
  (∀ l, issued w r.2 l → writes l = [write this webhookID W]) ∧
  r.1 = settle "error during appendAddressesToWebhook: "
          (axios (write this webhookID W) b1).1 ∧
  ∀ data b2, axios (write this webhookID W) b1 = (Fulfilled data, b2) →
             r = (Fulfilled data,
                  World b2 (sent w ++ [fetch this webhookID;
                                       write this webhookID W])).
Proof.
  intros Hf HW Hlen r. subst r.
  assert (Hcap : js_length E + js_length (@nil string) ≤ 10000)
    by (unfold js_length in *; simpl; lia).
  rewrite (append_run_within this _ _ _ _ _ _ Hf HW Hcap).
  simpl. rewrite app_nil_r, (insert_id _ _ _ HW).
  split; [done |]. split; [|split; [done |]].
  - intros l Hl. by read_issued Hl.
  - intros data b2 Hput. by rewrite Hput.
Qed.

Lemma append_nothing_still_writes_witness :
  let r := @appendAddressesToWebhook value one_webhook helius "abc"
             [] (holding 10000) in
  issued (holding 10000) r.2
    [fetch helius "abc"; write helius "abc" (webhook_with (addresses 10000))] ∧
  (∀ l, issued (holding 10000) r.2 l →
        writes l = [write helius "abc" (webhook_with (addresses 10000))]) ∧
  r.1 = settle "error during appendAddressesToWebhook: "
          (one_webhook (write helius "abc" (webhook_with (addresses 10000)))
             (VObj (webhook_with (addresses 10000)))).1 ∧
  ∀ data b2,
    one_webhook (write helius "abc" (webhook_with (addresses 10000)))
      (VObj (webhook_with (addresses 10000))) = (Fulfilled data, b2) →
    r = (Fulfilled data,
         World b2 (sent (holding 10000) ++
                   [fetch helius "abc";
                    write helius "abc" (webhook_with (addresses 10000))])).
Proof.
  apply (@append_nothing_still_writes value one_webhook helius "abc"
           (webhook_with (addresses 10000)) (addresses 10000)
           (holding 10000) (VObj (webhook_with (addresses 10000)))).
  - reflexivity.
  - vm_compute. reflexivity.
  - vm_compute. discriminate.
Defined.

(** ** Editing *)

(** C3.  When the fetch resolves to the webhook [W], the body [editWebhook]
    writes is the shallow merge of [W] and the request: a field of the
    request has the value of the request, any other field has the value
    fetched, so the body is the whole merged webhook. *)
Theorem edit_sends_shallow_merge {B} `{!Axios B} (this : Helius)
    (webhookID : string) (partial W : obj) (w : world B) (b1 : B) :
  axios (fetch this webhookID) (remote w) = (Fulfilled (VObj W), b1) →
  ∃ body,
    issued w (editWebhook this webhookID partial w).2
      [fetch this webhookID; write this webhookID body] ∧
    ∀ field, body !! field = match partial !! field with
                             | Some v => Some v
                             | None => W !! field
                             end.
Proof.
  intros Hf. exists (spread2 W partial). split.
  - by rewrite (editWebhook_run this _ _ _ _ _ Hf).
  - intros field. unfold spread2. rewrite lookup_union.
    by destruct (partial !! field), (W !! field).
Qed.

Lemma edit_sends_shallow_merge_witness :
  ∃ body,
    issued (holding 3)
      (@editWebhook value one_webhook helius "abc"
         {["webhookURL" := VStr "https://example.org/new"]} (holding 3)).2
      [fetch helius "abc"; write helius "abc" body] ∧
    ∀ field,
      body !! field =
      match ({["webhookURL" := VStr "https://example.org/new"]} : obj) !! field with
      | Some v => Some v
      | None => webhook_with (addresses 3) !! field
      end.
Proof.
  apply (@edit_sends_shallow_merge value one_webhook helius "abc"
           {["webhookURL" := VStr "https://example.org/new"]}
           (webhook_with (addresses 3)) (holding 3)
           (VObj (webhook_with (addresses 3)))).
  reflexivity.
Defined.

(** ** Failures *)

Section Failures.
Context {B : Type} `{!Axios B} (this : Helius).

Lemma getAllWebhooks_run (w : world B) :
  let r := Request GET (webhooks_url this) None in
  getAllWebhooks this w =
  (settle "error calling getWebhooks: " (axios r (remote w)).1,
   World (axios r (remote w)).2 (sent w ++ [r])).
Proof.
  intros r. unfold getAllWebhooks, axios_get.
  rewrite (single_call_run _ _ id). by destruct (axios _ _).1.
Qed.

Lemma createWebhook_run (request : obj) (w : world B) :
  let r := Request POST (webhooks_url this) (Some request) in
  createWebhook this request w =
  (settle "error during createWebhook: " (axios r (remote w)).1,
   World (axios r (remote w)).2 (sent w ++ [r])).
Proof.
  intros r. unfold createWebhook, axios_post.
  rewrite (single_call_run _ _ id). by destruct (axios _ _).1.
Qed.

Lemma deleteWebhook_run (webhookID : string) (w : world B) :
  let r := Request DELETE (webhook_url this webhookID) None in
  deleteWebhook this webhookID w =
  (settle "error during deleteWebhook: "
     (match (axios r (remote w)).1 with
      | Fulfilled _ => Fulfilled true
      | Rejected err => Rejected err
      end),
   World (axios r (remote w)).2 (sent w ++ [r])).
Proof.
  intros r. unfold deleteWebhook, axios_delete.
  by rewrite (single_call_run _ _ (λ _, true)).
Qed.

(** A rejected call to the backend goes through the handler of the
    operation, after the handler of [getWebhookByID] when it is the fetch
    of a two-step operation. *)
Lemma failure_rethrown (c : call) (w : world B) (err : thrown) :
  answers_with this c w err →
  failure this c w = Some (rethrown (prefix_of c) err) ∨
  failure this c w =
    Some (rethrown (prefix_of c)
            (rethrown "error during getWebhookByID: " err)).
Proof.
  destruct c as [|webhookID|request|webhookID|webhookID request|webhookID N];
    simpl.
  - intros [b' Hr]. left. by rewrite getAllWebhooks_run, Hr.
  - intros [b' Hr]. left. by rewrite getWebhookByID_run, Hr.
  - intros [b' Hr]. left. by rewrite createWebhook_run, Hr.
  - intros [b' Hr]. left. by rewrite deleteWebhook_run, Hr.
  - intros [[b' Hr] | (webhook & b1 & Hf & b' & Hr)].
    + right. unfold editWebhook.
      by rewrite (two_steps_fetch_rejected this _ _ _ _ _ _ Hr).
    + left. by rewrite (editWebhook_run this _ _ _ _ _ Hf), Hr.
  - intros [[b' Hr] | (webhook & b1 & body & Hf & Hext & b' & Hr)].
    + right. unfold appendAddressesToWebhook.
      by rewrite (two_steps_fetch_rejected this _ _ _ _ _ _ Hr).
    + left. by rewrite (append_run_write this _ _ _ _ _ _ Hf Hext), Hr.
Qed.

Lemma prefix_names_operation (c : call) (cause : string) :
  contains (prefix_of c +:+ cause) (operation_name c).
Proof.
  apply contains_app_l.
  destruct c; [by exists "error calling ", ": " | by exists "error during ", ": "..].
Qed.

(** [`${err}`] for the error thrown by the handler of [getWebhookByID]. *)
Lemma nested_cause (cause : string) :
  Error_toString "Error" ("error during getWebhookByID: " +:+ cause) =
  "Error: error during getWebhookByID: " +:+ cause.
Proof. reflexivity. Qed.

(** A failure that is not an axios error keeps its own text. *)
Lemma other_failure_keeps_text (c : call) (w : world B) (err : thrown)
    (text : string) :
  err = JsThrown text ∨
    (∃ name message, err = JsError name message ∧
                     text = Error_toString name message) →
  answers_with this c w err →
  ∃ message, failure this c w = Some (new_Error message) ∧
             contains message (operation_name c) ∧
             contains message text.
Proof.
  intros Herr Hans.
  destruct (failure_rethrown c w err Hans) as [-> | ->];
    destruct Herr as [-> | (name & msg & -> & ->)];
    cbn [rethrown new_Error]; try rewrite nested_cause;
    (eexists; split; [reflexivity |]; split;
     [apply prefix_names_operation |]);
    repeat apply contains_app_r; apply contains_refl.
Qed.

Lemma deleteWebhook_success (webhookID : string) (w : world B)
    (data : value) (b1 : B) :
  axios (Request DELETE (webhook_url this webhookID) None) (remote w)
    = (Fulfilled data, b1) →
  (deleteWebhook this webhookID w).1 = Fulfilled true.
Proof. intros Hd. by rewrite deleteWebhook_run, Hd. Qed.

Lemma deleteWebhook_never_false (webhookID : string) (w : world B) :
  (deleteWebhook this webhookID w).1 ≠ Fulfilled false.
Proof. rewrite deleteWebhook_run. simpl. by destruct (axios _ _).1. Qed.

Lemma deleteWebhook_failure_is_thrown (webhookID : string) (w : world B)
    (err : thrown) (b1 : B) :
  axios (Request DELETE (webhook_url this webhookID) None) (remote w)
    = (Rejected err, b1) →
  (deleteWebhook this webhookID w).1 =
    Rejected (rethrown "error during deleteWebhook: " err).
Proof. intros Hd. by rewrite deleteWebhook_run, Hd. Qed.

End Failures.

(** C4.  When the backend answers a call of one of the six operations with
    a structured error payload [{error: X}], the operation is rejected with
    an [Error] whose message contains the name of the operation and [X]. *)
Theorem structured_error_is_named_and_quoted {B} `{!Axios B} (this : Helius)
    (c : call) (w : world B) (m X : string) :
  answers_with this c w (AxiosError m (Some (PError X))) →
  ∃ message, failure this c w = Some (new_Error message) ∧
             contains message (operation_name c) ∧
             contains message X.
Proof.
  intros Hans.
  destruct (failure_rethrown this c w _ Hans) as [-> | ->];
    cbn [rethrown new_Error]; try rewrite nested_cause;
    (eexists; split; [reflexivity |]; split;
     [apply prefix_names_operation |]);
    repeat apply contains_app_r; apply contains_refl.
Qed.

Lemma structured_error_is_named_and_quoted_witness :
  ∃ message,
    @failure value (read_only (AxiosError "Request failed with status code 400"
                                 (Some (PError "invalid webhookURL"))))
      helius (EditWebhook "abc" {["webhookURL" := VStr "nowhere"]}) (holding 3)
      = Some (new_Error message) ∧
    contains message "editWebhook" ∧
    contains message "invalid webhookURL".
Proof.
  apply (@structured_error_is_named_and_quoted value
           (read_only (AxiosError "Request failed with status code 400"
                         (Some (PError "invalid webhookURL"))))
           helius (EditWebhook "abc" {["webhookURL" := VStr "nowhere"]})
           (holding 3) "Request failed with status code 400"
           "invalid webhookURL").
  right. eexists _, _. split; [reflexivity |]. eexists. reflexivity.
Defined.

(** C5 fails on the code for the failures axios itself reports without a
    response.  With the network down, axios rejects with an axios error
    whose message is "Network Error" and whose [response] is missing; the
    handler takes the axios branch, the optional chain yields [undefined],
    and the text of the failure is not in the message that is thrown. *)
Theorem network_failure_text_is_lost :
  let down := always_rejects (AxiosError "Network Error" None) in
  (@getAllWebhooks unit down helius offline).1 =
    Rejected (new_Error "error calling getWebhooks: undefined") ∧
  (@getWebhookByID unit down helius "abc" offline).1 =
    Rejected (new_Error "error during getWebhookByID: undefined") ∧
  ¬ contains "error calling getWebhooks: undefined" "Network Error" ∧
  ¬ contains "error during getWebhookByID: undefined" "Network Error".
Proof.
  repeat split; try reflexivity; by apply not_contains.
Qed.

(** C7 fails on the code at one kind of server failure.  When the server
    answers the DELETE with an error status and the JSON body [null], the
    handler reads [.error] from [null]; the [TypeError] raised there leaves
    [deleteWebhook] as it is, and its message does not name the operation. *)
Theorem delete_null_body_failure_is_untagged :
  let failing := always_rejects
    (AxiosError "Request failed with status code 500" (Some PNull)) in
  ∃ message,
    (@deleteWebhook unit failing helius "abc" offline).1 =
      Rejected (TypeError message) ∧
    ¬ contains message "deleteWebhook".
Proof.
  eexists. split; [reflexivity |]. by apply not_contains.
Qed.

(** ** Beyond the claims: whole runs of the six operations *)

Section WholeRuns.
Context {B : Type} `{!Axios B} (this : Helius).

(** The append, when the statements between the fetch and the write throw. *)
Lemma append_run_stopped (webhookID : string) (N : list string) (w : world B)
    (webhook : value) (b1 : B) (err : thrown) :
  axios (fetch this webhookID) (remote w) = (Fulfilled webhook, b1) →
  (extend_addresses webhook N (World b1 [])).1 = Rejected err →
  appendAddressesToWebhook this webhookID N w =
  (Rejected (rethrown "error during appendAddressesToWebhook: " err),
   World b1 (sent w ++ [fetch this webhookID])).
Proof.
  intros Hf Hext.
  unfold appendAddressesToWebhook, try_catch, bind.
  rewrite (getWebhookByID_fulfilled this _ _ _ _ Hf).
  rewrite (extend_addresses_pure _ _ _ (World b1 [])), Hext.
  by rewrite rethrow_run.
Qed.

(** The requests of a run: the first request alone, or a fetch followed by
    one PUT to the same address. *)
Lemma requests_of_run (c : call) (w : world B) :
  issued w (after this c w) [first_request this c] ∨
  ∃ body, req_method (first_request this c) = GET ∧
          issued w (after this c w)
            [first_request this c;
             Request PUT (req_url (first_request this c)) (Some body)].
Proof.
  destruct c as [|webhookID|request|webhookID|webhookID request|webhookID N];
    simpl.
  - left. by rewrite getAllWebhooks_run.
  - left. by rewrite getWebhookByID_run.
  - left. by rewrite createWebhook_run.
  - left. by rewrite deleteWebhook_run.
  - destruct (axios (fetch this webhookID) (remote w)) as [[d|err] b1] eqn:Hf.
    + right. eexists. split; [done |].
      by rewrite (editWebhook_run this _ _ _ _ _ Hf).
    + left. unfold editWebhook.
      by rewrite (two_steps_fetch_rejected this _ _ _ _ _ _ Hf).
  - destruct (axios (fetch this webhookID) (remote w)) as [[d|err] b1] eqn:Hf.
    + destruct (extend_addresses d N (World b1 [])).1 as [body|err] eqn:Hext.
      * right. eexists. split; [done |].
        by rewrite (append_run_write this _ _ _ _ _ _ Hf Hext).
      * left. by rewrite (append_run_stopped _ _ _ _ _ _ Hf Hext).
    + left. unfold appendAddressesToWebhook.
      by rewrite (two_steps_fetch_rejected this _ _ _ _ _ _ Hf).
Qed.

Lemma first_request_keyed (c : call) : keyed this (first_request this c).
Proof.
  destruct c; simpl; unfold keyed, fetch, webhooks_url, webhook_url; simpl.
  1,3: by exists "/webhooks".
  all: eexists ("/webhooks/" +:+ _); by rewrite app_assoc_string.
Qed.



End WholeRuns.

(** X1.  [getAllWebhooks], [getWebhookByID] and [createWebhook] add nothing
    of their own: when the backend fulfils their one call with [data], they
    resolve to that same [data], and that call is the only request sent. *)
Theorem single_call_returns_backend_data {B} `{!Axios B} (this : Helius)
    (c : call) (w : world B) (data : value) (b1 : B) :
  passes_through c = true →
  axios (first_request this c) (remote w) = (Fulfilled data, b1) →
  resolved this c w = Some data ∧
  after this c w = World b1 (sent w ++ [first_request this c]).
Proof.
  intros Hc Hd. destruct c; try discriminate; simpl in *.
  - by rewrite getAllWebhooks_run, Hd.
  - by rewrite getWebhookByID_run, Hd.
  - by rewrite createWebhook_run, Hd.
Qed.

Lemma single_call_returns_backend_data_witness :
  @resolved value one_webhook helius (GetWebhookByID "abc") (holding 3) =
    Some (VObj (webhook_with (addresses 3))) ∧
  @after value one_webhook helius (GetWebhookByID "abc") (holding 3) =
    World (VObj (webhook_with (addresses 3)))
          (sent (holding 3) ++ [first_request helius (GetWebhookByID "abc")]).
Proof.
  apply (@single_call_returns_backend_data value one_webhook helius
           (GetWebhookByID "abc") (holding 3)
           (VObj (webhook_with (addresses 3)))
           (VObj (webhook_with (addresses 3)))).
  - reflexivity.
  - reflexivity.
Defined.

(** X2.  Whatever the backend answers, [createWebhook] sends exactly one
    request: a POST to the collection, under the key of the client, whose
    body is the request of the caller, field for field. *)
Theorem create_posts_request_verbatim {B} `{!Axios B} (this : Helius)
    (createWebhookRequest : obj) (w : world B) :
  ∃ r, issued w (createWebhook this createWebhookRequest w).2 [r] ∧
       req_method r = POST ∧
       req_url r = "https://api.helius.xyz/v0/webhooks?api-key=" +:+ apiKey this ∧
       req_body r = Some createWebhookRequest.
Proof.
  eexists. rewrite createWebhook_run. simpl. by split; [reflexivity |].
Qed.

(** X3.  [deleteWebhook] sends one DELETE without a body.  It resolves to
    [true] exactly when the backend fulfils that call, whatever the data of
    the response, and it never resolves to [false]. *)
Theorem delete_resolves_true_or_throws {B} `{!Axios B} (this : Helius)
    (webhookID : string) (w : world B) :
  let request := Request DELETE (webhook_url this webhookID) None in
  let r := deleteWebhook this webhookID w in
  issued w r.2 [request] ∧
  (r.1 = Fulfilled true ↔ ∃ data, (axios request (remote w)).1 = Fulfilled data) ∧
  r.1 ≠ Fulfilled false.
Proof.
  intros request r. subst r. rewrite deleteWebhook_run. fold request. simpl.
  split; [done |].
  destruct (axios request (remote w)).1 as [data|err]; simpl.
  - split; [|done]. split; [by exists data | done].
  - split; [|done]. split; [done | by intros [data ?]].
Qed.

(** X4.  No operation retries or fans out: a run sends its first request
    and at most one more, at most one of the requests sent is a write, and
    the first request is sent whatever the arguments are. *)
Theorem every_run_sends_one_or_two_requests {B} `{!Axios B} (this : Helius)
    (c : call) (w : world B) :
  ∃ l, issued w (after this c w) l ∧
       head l = Some (first_request this c) ∧
       (1 ≤ length l ≤ 2)%nat ∧
       (length (writes l) ≤ 1)%nat.
Proof.
  destruct (requests_of_run this c w) as [Hl | (body & Hget & Hl)];
    eexists; (split; [exact Hl |]); (split; [done |]);
    (split; [simpl; lia |]); unfold writes.
  - exact (length_filter is_write [first_request this c]).
  - rewrite filter_cons_False; [exact (length_filter is_write [_]) |].
    unfold is_write. rewrite Hget. by intros [].
Qed.

(** X5.  Every request of every operation goes to the v0 API and carries the
    key of the client as its [api-key] query; nothing is sent to the v1
    address. *)
Theorem every_request_carries_the_key {B} `{!Axios B} (this : Helius)
    (c : call) (w : world B) :
  ∃ l, issued w (after this c w) l ∧ Forall (keyed this) l.
Proof.
  pose proof (first_request_keyed this c) as Hk.
  destruct (requests_of_run this c w) as [Hl | (body & _ & Hl)];
    eexists; (split; [exact Hl |]); repeat constructor; done.
Qed.



(** X7.  When the fetch of a two-step operation is rejected with the
    structured error [{error: X}], the operation stops there: no write is
    sent, the backend is as the fetch left it, and the message names the
    outer operation, then [getWebhookByID], then [X]. *)
Theorem rejected_fetch_stops_before_write {B} `{!Axios B} (this : Helius)
    (webhookID : string) (request : obj) (N : list string) (w : world B)
    (m X : string) (b1 : B) :
  axios (fetch this webhookID) (remote w) =
    (Rejected (AxiosError m (Some (PError X))), b1) →
  editWebhook this webhookID request w =
    (Rejected (new_Error
       ("error during editWebhook: Error: error during getWebhookByID: " +:+ X)),
     World b1 (sent w ++ [fetch this webhookID])) ∧
  appendAddressesToWebhook this webhookID N w =
    (Rejected (new_Error
       ("error during appendAddressesToWebhook: Error: error during getWebhookByID: "
        +:+ X)),
     World b1 (sent w ++ [fetch this webhookID])).
Proof.
  intros Hf. split.
  - unfold editWebhook.
    by rewrite (two_steps_fetch_rejected this _ _ _ _ _ _ Hf).
  - unfold appendAddressesToWebhook.
    by rewrite (two_steps_fetch_rejected this _ _ _ _ _ _ Hf).
Qed.

Lemma rejected_fetch_stops_before_write_witness :
  let refused := always_rejects
    (AxiosError "Request failed with status code 404"
       (Some (PError "webhook not found"))) in
  @editWebhook unit refused helius "abc" ∅ offline =
    (Rejected (new_Error
       ("error during editWebhook: Error: error during getWebhookByID: "
        +:+ "webhook not found")),
     World tt (sent offline ++ [fetch helius "abc"])) ∧
  @appendAddressesToWebhook unit refused helius "abc" ["addr"] offline =
    (Rejected (new_Error
       ("error during appendAddressesToWebhook: Error: error during getWebhookByID: "
        +:+ "webhook not found")),
     World tt (sent offline ++ [fetch helius "abc"])).
Proof.
  apply (@rejected_fetch_stops_before_write unit
           (always_rejects
              (AxiosError "Request failed with status code 404"
                 (Some (PError "webhook not found"))))
           helius "abc" ∅ ["addr"] offline
           "Request failed with status code 404" "webhook not found" tt).
  reflexivity.
Defined.

(** X8.  [editWebhook] has no capacity check: when the request carries an
    address list, that list replaces the fetched one in the body and the
    write is sent, however long the list is. *)
Theorem edit_has_no_capacity_check {B} `{!Axios B} (this : Helius)
    (webhookID : string) (request W : obj) (L : list value)
    (w : world B) (b1 : B) :
  axios (fetch this webhookID) (remote w) = (Fulfilled (VObj W), b1) →
  request !! "accountAddresses" = Some (VArr L) →
  ∃ body,
    issued w (editWebhook this webhookID request w).2
      [fetch this webhookID; write this webhookID body] ∧
    body !! "accountAddresses" = Some (VArr L).
Proof.
  intros Hf HL. eexists. split.
  - by rewrite (editWebhook_run this _ _ _ _ _ Hf).
  - simpl. unfold spread2. by rewrite lookup_union, HL, union_Some_l.
Qed.

Lemma edit_has_no_capacity_check_witness :
  ∃ body,
    issued (holding 3)
      (@editWebhook value one_webhook helius "abc"
         {["accountAddresses" := VArr (addresses 10001)]} (holding 3)).2
      [fetch helius "abc"; write helius "abc" body] ∧
    body !! "accountAddresses" = Some (VArr (addresses 10001)).
Proof.
  apply (@edit_has_no_capacity_check value one_webhook helius "abc"
           {["accountAddresses" := VArr (addresses 10001)]}
           (webhook_with (addresses 3)) (addresses 10001) (holding 3)
           (VObj (webhook_with (addresses 3)))).
  - reflexivity.
  - vm_compute. reflexivity.
Defined.

(** X9.  Editing with an empty request is not a no-op: the fetched webhook
    is written back as it is, and the operation settles as that write
    does. *)
Theorem edit_with_empty_request_rewrites {B} `{!Axios B} (this : Helius)
    (webhookID : string) (W : obj) (w : world B) (b1 : B) :
  axios (fetch this webhookID) (remote w) = (Fulfilled (VObj W), b1) →
  let r := editWebhook this webhookID ∅ w in
  issued w r.2 [fetch this webhookID; write this webhookID W] ∧
  r.1 = settle "error during editWebhook: "
          (axios (write this webhookID W) b1).1 ∧
  remote r.2 = (axios (write this webhookID W) b1).2.
Proof.
  intros Hf r. subst r.
  rewrite (editWebhook_run this _ _ _ _ _ Hf). simpl.
  unfold spread2. by rewrite (left_id_L ∅ (∪)).
Qed.

Lemma edit_with_empty_request_rewrites_witness :
  let r := @editWebhook value one_webhook helius "abc" ∅ (holding 3) in
  issued (holding 3) r.2
    [fetch helius "abc"; write helius "abc" (webhook_with (addresses 3))] ∧
  r.1 = settle "error during editWebhook: "
          (one_webhook (write helius "abc" (webhook_with (addresses 3)))
             (VObj (webhook_with (addresses 3)))).1 ∧
  remote r.2 = (one_webhook (write helius "abc" (webhook_with (addresses 3)))
                  (VObj (webhook_with (addresses 3)))).2.
Proof.
  apply (@edit_with_empty_request_rewrites value one_webhook helius "abc"
           (webhook_with (addresses 3)) (holding 3)
           (VObj (webhook_with (addresses 3)))).
  reflexivity.
Defined.

(** X10.  When the fetched webhook has no [accountAddresses] field, the
    append fails on the call of [concat]: the [TypeError] is caught and
    rethrown under the name of the operation, and no write is sent. *)
Theorem append_without_address_list_fails {B} `{!Axios B} (this : Helius)
    (webhookID : string) (N : list string) (W : obj) (w : world B) (b1 : B) :
  axios (fetch this webhookID) (remote w) = (Fulfilled (VObj W), b1) →
  W !! "accountAddresses" = None →
  ∃ message,
    appendAddressesToWebhook this webhookID N w =
      (Rejected (new_Error message),
       World b1 (sent w ++ [fetch this webhookID])) ∧
    contains message "appendAddressesToWebhook" ∧
    contains message "TypeError".
Proof.
  intros Hf HW.
  rewrite (append_run_stopped this _ _ _ _ _
             (TypeError "Cannot read properties of undefined (reading 'concat')")
             Hf); [| by simpl; rewrite HW].
  eexists. split; [reflexivity |]. split.
  - by exists "error during ",
      ": TypeError: Cannot read properties of undefined (reading 'concat')".
  - by exists "error during appendAddressesToWebhook: ",
      ": Cannot read properties of undefined (reading 'concat')".
Qed.

Lemma append_without_address_list_fails_witness :
  ∃ message,
    @appendAddressesToWebhook value one_webhook helius "abc" ["addr"]
      (World (VObj {["webhookID" := VStr "abc"]}) []) =
      (Rejected (new_Error message),
       World (VObj {["webhookID" := VStr "abc"]})
             ([] ++ [fetch helius "abc"])) ∧
    contains message "appendAddressesToWebhook" ∧
    contains message "TypeError".
Proof.
  apply (@append_without_address_list_fails value one_webhook helius "abc"
           ["addr"] {["webhookID" := VStr "abc"]}
           (World (VObj {["webhookID" := VStr "abc"]}) [])
           (VObj {["webhookID" := VStr "abc"]})).
  - reflexivity.
  - vm_compute. reflexivity.
Defined.

(** X11.  Against a server that stores what is written and returns what is
    stored, two appends in a row leave the webhook that one append of the
    two lists together leaves, as long as the whole fits under the cap; and
    both ways resolve to that webhook. *)
Theorem appends_compose (this : Helius) (webhookID : string) (W : obj)
    (E : list value) (N1 N2 : list string) (log : list request) :
  W !! "accountAddresses" = Some (VArr E) →
  js_length E + js_length N1 + js_length N2 ≤ 10000 →
  let w := World (VObj W) log in
  let first := @appendAddressesToWebhook value one_webhook this webhookID N1 w in
  let second :=
    @appendAddressesToWebhook value one_webhook this webhookID N2 first.2 in
  let once :=
    @appendAddressesToWebhook value one_webhook this webhookID (N1 ++ N2) w in
  let final := VObj (<["accountAddresses" :=
                         VArr (E ++ (VStr <$> N1) ++ (VStr <$> N2))]> W) in
  remote second.2 = final ∧ remote once.2 = final ∧
  second.1 = Fulfilled final ∧ once.1 = Fulfilled final.
Proof.
  intros HW Hlen w first second once final.
  set (body1 := <["accountAddresses" := VArr (E ++ (VStr <$> N1))]> W).
  set (w1 := World (VObj body1)
               (log ++ [fetch this webhookID; write this webhookID body1])).
  assert (Hlen1 : js_length E + js_length N1 ≤ 10000)
    by (unfold js_length in *; lia).
  assert (Hfirst : first = (Fulfilled (VObj body1), w1)).
  { subst first.
    by rewrite (@append_run_within value one_webhook this webhookID N1 W E w
                  (VObj W) eq_refl HW Hlen1). }
  assert (Hsecond : second.1 = Fulfilled final ∧ remote second.2 = final).
  { subst second. rewrite Hfirst. simpl.
    rewrite (@append_run_within value one_webhook this webhookID N2
               body1 (E ++ (VStr <$> N1)) w1 (VObj body1) eq_refl
               (lookup_insert_eq _ _ _)).
    - simpl. subst body1 final. by rewrite insert_insert_eq, <- app_assoc.
    - rewrite js_length_app, js_length_fmap. lia. }
  assert (Honce : once.1 = Fulfilled final ∧ remote once.2 = final).
  { subst once.
    rewrite (@append_run_within value one_webhook this webhookID (N1 ++ N2)
               W E w (VObj W) eq_refl HW).
    - simpl. subst final. by rewrite fmap_app.
    - rewrite js_length_app. lia. }
  tauto.
Qed.

Lemma appends_compose_witness :
  let w := World (VObj (webhook_with (addresses 9000))) [] in
  let first := @appendAddressesToWebhook value one_webhook helius "abc"
                 (new_addresses 400) w in
  let second := @appendAddressesToWebhook value one_webhook helius "abc"
                  (new_addresses 600) first.2 in
  let once := @appendAddressesToWebhook value one_webhook helius "abc"
                (new_addresses 400 ++ new_addresses 600) w in
  let final := VObj (<["accountAddresses" :=
                         VArr (addresses 9000 ++ (VStr <$> new_addresses 400)
                               ++ (VStr <$> new_addresses 600))]>
                       (webhook_with (addresses 9000))) in
  remote second.2 = final ∧ remote once.2 = final ∧
  second.1 = Fulfilled final ∧ once.1 = Fulfilled final.
Proof.
  apply (appends_compose helius "abc" (webhook_with (addresses 9000))
           (addresses 9000) (new_addresses 400) (new_addresses 600) []).
  - vm_compute. reflexivity.
  - vm_compute. discriminate.
Defined.

(** X12.  Appending nothing is still checked against the cap: when the
    fetched webhook already holds more than 10,000 addresses, the append of
    the empty list fails with the capacity error and sends no write. *)
Theorem append_nothing_to_overfull_fails {B} `{!Axios B} (this : Helius)
    (webhookID : string) (W : obj) (E : list value) (w : world B) (b1 : B) :
  axios (fetch this webhookID) (remote w) = (Fulfilled (VObj W), b1) →
  W !! "accountAddresses" = Some (VArr E) →
  10000 < js_length E →
  appendAddressesToWebhook this webhookID [] w =
    (Rejected capacity_error, World b1 (sent w ++ [fetch this webhookID])).
Proof.
  intros Hf HW Hlen.
  apply (append_run_over this _ _ _ _ _ _ Hf HW).
  unfold js_length in *. simpl. lia.
Qed.

Lemma append_nothing_to_overfull_fails_witness :
  @appendAddressesToWebhook value one_webhook helius "abc" [] (holding 10001) =
    (Rejected capacity_error,
     World (VObj (webhook_with (addresses 10001)))
           (sent (holding 10001) ++ [fetch helius "abc"])).
Proof.
  apply (@append_nothing_to_overfull_fails value one_webhook helius "abc"
           (webhook_with (addresses 10001)) (addresses 10001) (holding 10001)
           (VObj (webhook_with (addresses 10001)))).
  - reflexivity.
  - vm_compute. reflexivity.
  - vm_compute. reflexivity.
Defined.

(** A socket error thrown as a plain [Error] keeps its text through
    [deleteWebhook]. *)
Lemma other_failure_keeps_text_witness :
  ∃ message,
    @failure unit (always_rejects (JsError "Error" "socket hang up"))
      helius (DeleteWebhook "abc") offline = Some (new_Error message) ∧
    contains message "deleteWebhook" ∧
    contains message "Error: socket hang up".
Proof.
  apply (@other_failure_keeps_text unit
           (always_rejects (JsError "Error" "socket hang up"))
           helius (DeleteWebhook "abc") offline
           (JsError "Error" "socket hang up") "Error: socket hang up").
  - right. eexists _, _. split; reflexivity.
  - eexists. reflexivity.
Defined.

(** X14.  An axios error that comes without a response, or with a response
    whose body has no [error] field, is reported with the cause
    ["undefined"], whatever its own message is; behind the fetch of a
    two-step operation the cause is the message of [getWebhookByID]. *)
Theorem axios_failure_without_error_field_reads_undefined {B} `{!Axios B}
    (this : Helius) (c : call) (w : world B) (m : string)
    (response : option payload) :
  response = None ∨ response = Some PNoError →
  answers_with this c w (AxiosError m response) →
  failure this c w = Some (new_Error (prefix_of c +:+ "undefined")) ∨
  failure this c w =
    Some (new_Error (prefix_of c +:+
                     "Error: error during getWebhookByID: undefined")).
Proof.
  intros Hresp Hans.
  destruct (failure_rethrown this c w _ Hans) as [-> | ->];
    destruct Hresp as [-> | ->]; auto.
Qed.

Lemma axios_failure_without_error_field_reads_undefined_witness :
  @failure unit (always_rejects (AxiosError "timeout of 1000ms exceeded" None))
    helius (CreateWebhook ∅) offline =
    Some (new_Error (prefix_of (CreateWebhook ∅) +:+ "undefined")) ∨
  @failure unit (always_rejects (AxiosError "timeout of 1000ms exceeded" None))
    helius (CreateWebhook ∅) offline =
    Some (new_Error (prefix_of (CreateWebhook ∅) +:+
                     "Error: error during getWebhookByID: undefined")).
Proof.
  apply (@axios_failure_without_error_field_reads_undefined unit
           (always_rejects (AxiosError "timeout of 1000ms exceeded" None))
           helius (CreateWebhook ∅) offline "timeout of 1000ms exceeded" None).
  - left. reflexivity.
  - eexists. reflexivity.
Defined.
